(** * Recursive board engine: Cell, Board and Move

    A shallow embedding of [core/move.py], [core/cell.py], [core/placeable.py]
    and [core/board.py], and the properties of the engine that follow from
    the code.

    Conventions of the embedding.
    - Python integers are [Z]; a position is a pair of integers, or unset
      ([None]), as the class attribute [Placeable.position] is until the owning
      Board assigns it.
    - An in-place mutation is a function from the object before to the object
      after.  A method that may raise returns the object as the call leaves it
      together with a [result]: [Ok v] for [return v], [Raise e] for an
      exception.
    - [Board] calls its children under the names [makeMove], [undoMove],
      [getValidMoves], [_checkActiveAvailability] and [subBoard].  No class of
      the hierarchy has an attribute of one of these names, so looking one up
      on a child raises [AttributeError] (see [no_such_method] below).  The
      statements that the source has after such a call are kept, behind the
      lookup, as the source has them. *)

From Stdlib Require Import ZArith Lia Bool List.
From stdpp Require Import base decidable option list.
Import ListNotations.

Local Open Scope Z_scope.

(** ** Exceptions and results *)

Inductive exn : Type :=
| AttributeError   (* an attribute that was never set *)
| IndexError       (* list index out of range *)
| TypeError        (* None used as a tuple, a list or an iterable *)
| InvalidMove      (* Exception("Invalid move ... played") *)
| UndoMismatch.    (* Exception("Unable to undo move ...") *)

Inductive result (A : Type) : Type :=
| Ok (a : A)
| Raise (e : exn).
Arguments Ok {A} a.
Arguments Raise {A} e.

Definition bind {A B} (r : result A) (k : A -> result B) : result B :=
  match r with
  | Ok a => k a
  | Raise e => Raise e
  end.

Notation "'let*' x ':=' r 'in' k" := (bind r (fun x => k))
  (at level 10, x pattern, r at level 100, k at level 200).

#[global] Instance exn_eq_dec : EqDecision exn.
Proof. solve_decision. Defined.

(** ** Symbols *)

(** Modelled from the spec: [game_symbol.py] is not among the sources.  The
    symbol type is "an immutable tag with at least four distinguishable
    values: empty, the two player marks, and full (the draw marker)". *)
Module GameSymbol.
Inductive t : Type := empty | X | O | full.

#[global] Instance eq_dec : EqDecision t.
Proof. solve_decision. Defined.
End GameSymbol.

(** ** Positions and Python sequences *)

(** A position: [(row, col)], or [None] while unset. *)
Definition Position : Type := option (Z * Z).

(** [pos[0]], [pos[1]] or [(x0, y0) = pos]: a [TypeError] on [None]. *)
Definition coords (p : Position) : result (Z * Z) :=
  match p with
  | Some xy => Ok xy
  | None => Raise TypeError
  end.

(** The index of a Python list of length [n] that [i] denotes: negative
    indices count from the end; anything else is out of range. *)
Definition py_index (n : nat) (i : Z) : option nat :=
  if (0 <=? i) && (i <? Z.of_nat n) then Some (Z.to_nat i)
  else if (- Z.of_nat n <=? i) && (i <? 0) then Some (Z.to_nat (Z.of_nat n + i))
  else None.

(** [f (l[n])] for a natural index, [None] out of range.  The function is
    applied under the traversal, to the element found. *)
Definition nth_with {A B} (f : A -> B) : list A -> nat -> option B :=
  fix go (l : list A) (n : nat) : option B :=
    match l with
    | [] => None
    | a :: l' => match n with
                 | O => Some (f a)
                 | S n' => go l' n'
                 end
    end.

(** [f (cells[x][y])] with Python indexing; [None] stands for [IndexError]. *)
Definition cell_with {A B} (f : A -> B) (cells : list (list A)) (x y : Z)
  : option B :=
  match py_index (length cells) x with
  | None => None
  | Some i =>
      match nth_with (fun row =>
                        match py_index (length row) y with
                        | None => None
                        | Some j => nth_with f row j
                        end) cells i with
      | Some r => r
      | None => None
      end
  end.

(** [cells[x][y]]. *)
Definition cell_at {A} (cells : list (list A)) (x y : Z) : option A :=
  cell_with (fun c => c) cells x y.

(** The grid after the object at [cells[x][y]] has become [c]. *)
Definition set_cell {A} (cells : list (list A)) (x y : Z) (c : A)
  : list (list A) :=
  match py_index (length cells) x with
  | None => cells
  | Some i =>
      match cells !! i with
      | None => cells
      | Some row =>
          match py_index (length row) y with
          | None => cells
          | Some j => <[i := <[j := c]> row]> cells
          end
      end
  end.

(** [range(a, b)]. *)
Definition py_range (a b : Z) : list Z :=
  map (fun i => a + Z.of_nat i) (seq 0 (Z.to_nat (b - a))).

(** [l.index(v)] on a list of booleans; [None] stands for [ValueError]. *)
Fixpoint index_of (v : bool) (l : list bool) : option nat :=
  match l with
  | [] => None
  | b :: l' => if Bool.eqb b v then Some O else option_map S (index_of v l')
  end.

(** ** Moves *)

Module Move.
(** [positions] is a list of positions or [None]; the attribute [position]
    is [positions[0]], set by [__init__] when [positions] is not [None]. *)
Record t : Type := mk {
  positions : option (list Position);
  symbol : GameSymbol.t
}.

#[global] Instance eq_dec : EqDecision t.
Proof. solve_decision. Defined.

(** [Move(positions, symbol)]: [positions[0]] raises on an empty list, so
    every Move has a non-empty path or none. *)
Definition init (ps : option (list Position)) (s : GameSymbol.t) : result t :=
  match ps with
  | Some [] => Raise IndexError
  | _ => Ok (mk ps s)
  end.

(** [move.position]. *)
Definition position (m : t) : result Position :=
  match positions m with
  | Some (p :: _) => Ok p
  | _ => Raise AttributeError
  end.

(** [a == b]. *)
Definition eqb (a b : t) : bool :=
  bool_decide (positions b = positions a) && bool_decide (symbol b = symbol a).

Definition sub_move (m : t) : result t :=
  match positions m with
  | None => Raise TypeError
  | Some ps =>
      if (length ps =? 1)%nat then init None (symbol m)
      else init (Some (skipn 1 ps)) (symbol m)
  end.

(** [str(move)], as the f-strings of the error messages evaluate it: the
    path is measured with [len], which raises on [None]. *)
Definition str (m : t) : result unit :=
  match positions m with
  | None => Raise TypeError
  | Some _ => Ok tt
  end.

Definition super_move (superMove : list Position) (m : t) : result t :=
  match positions m with
  | None => Raise TypeError
  | Some ps =>
      if (length ps =? 0)%nat then init (Some superMove) (symbol m)
      else init (Some (superMove ++ ps)) (symbol m)
  end.
End Move.

(** ** The node hierarchy *)

#[warnings="-register-all"]
Inductive Placeable : Type :=
| Cell (position : Position) (symbol : GameSymbol.t)
| Board (position : Position) (rows cols : Z)
        (cells : list (list Placeable)) (gameMoves : list Move.t)
        (symbol : GameSymbol.t) (winStreak : Z).

Definition position (p : Placeable) : Position :=
  match p with
  | Cell pos _ => pos
  | Board pos _ _ _ _ _ _ => pos
  end.

Definition symbol (p : Placeable) : GameSymbol.t :=
  match p with
  | Cell _ s => s
  | Board _ _ _ _ _ s _ => s
  end.

Definition is_empty (s : GameSymbol.t) : bool :=
  bool_decide (s = GameSymbol.empty).

(** ** Board: win and draw derivation *)

Section BoardQueries.
Variables (rows cols : Z) (cells : list (list Placeable)) (winStreak : Z).

Definition _is_in_board (x y : Z) : bool :=
  (x >=? 0) && (y >=? 0) && (x <? rows) && (y <? cols).

(** The loop of [_dxdy_ray] over the indices [idx] still to visit. *)
Fixpoint ray_cells (x0 y0 dx dy : Z) (idx : list Z) : result (list Placeable) :=
  match idx with
  | [] => Ok []
  | i :: idx' =>
      if _is_in_board (x0 + i * dx) (y0 + i * dy) then
        match cell_at cells (x0 + i * dx) (y0 + i * dy) with
        | Some c => let* rest := ray_cells x0 y0 dx dy idx' in Ok (c :: rest)
        | None => Raise IndexError
        end
      else ray_cells x0 y0 dx dy idx'
  end.

Definition _dxdy_ray (x0 y0 dx dy : Z) (streak : option Z)
  : result (list Placeable) :=
  let streak := match streak with Some s => s | None => winStreak end in
  ray_cells x0 y0 dx dy (py_range (- streak) streak).

(** The loop over one ray: [Some s] when the loop returns [s], [None] when
    it runs to the end. *)
Fixpoint scan_ray (ray : list Placeable) (count : Z) (prev_symbol : GameSymbol.t)
  : option GameSymbol.t :=
  match ray with
  | [] => None
  | cell :: ray' =>
      let count :=
        if negb (is_empty (symbol cell))
           && (bool_decide (symbol cell = prev_symbol) || is_empty prev_symbol)
        then count + 1 else 0 in
      let prev_symbol := symbol cell in
      if count =? winStreak then Some prev_symbol
      else scan_ray ray' count prev_symbol
  end.

Definition ray_directions : list (Z * Z) := [(1, 0); (0, 1); (1, 1); (1, -1)].

(** The loop of [_check_winner_from_pos] over the directions [ds] still to
    try. *)
Fixpoint check_directions (x0 y0 : Z) (streak : option Z) (ds : list (Z * Z))
  : result GameSymbol.t :=
  match ds with
  | [] => Ok GameSymbol.empty
  | (dx, dy) :: ds' =>
      let* ray := _dxdy_ray x0 y0 dx dy streak in
      match scan_ray ray 0 GameSymbol.empty with
      | Some s => Ok s
      | None => check_directions x0 y0 streak ds'
      end
  end.

Definition _check_winner_from_pos (position : Position) (streak : option Z)
  : result GameSymbol.t :=
  let* (x0, y0) := coords position in
  check_directions x0 y0 streak ray_directions.

Definition empty_cells : Z :=
  Z.of_nat (length (List.filter (fun c => is_empty (symbol c)) (concat cells))).

Definition get_empty_cells : list Position :=
  map position (List.filter (fun c => is_empty (symbol c)) (concat cells)).

(** The loop of [Board.winner] over the cells [cs] still to visit, row by
    row; [res] is the local [result]. *)
Fixpoint winner_cells (cs : list Placeable) (res : GameSymbol.t)
  : result GameSymbol.t :=
  match cs with
  | [] => if empty_cells =? 0 then Ok GameSymbol.full else Ok res
  | cell :: cs' =>
      let* res := _check_winner_from_pos (position cell) None in
      if negb (is_empty res) then Ok res else winner_cells cs' res
  end.

Definition winner : result GameSymbol.t :=
  winner_cells (concat cells) GameSymbol.empty.

(** [Board.final_symbol]: [None] is Python's [None], "no decision yet". *)
Definition final_symbol : result (option GameSymbol.t) :=
  let* temp := winner in
  if negb (is_empty temp) then Ok (Some temp)
  else if empty_cells =? 0 then Ok (Some GameSymbol.full)
  else Ok None.
End BoardQueries.

(** ** Cell and Board: the methods *)

(** [l[a:b]] for [0 <= a] and [0 <= b]. *)
Definition py_slice {A} (l : list A) (a b : nat) : list A :=
  firstn (b - a) (skipn a l).

(** [l[-1]]. *)
Definition py_last {A} (l : list A) : result A :=
  match last l with
  | Some a => Ok a
  | None => Raise IndexError
  end.

(** *** The names under which a Board calls its children

    [Placeable] defines [make_move], [undo_move], [sub_board] and
    [get_valid_moves]; [Cell] and [Board] override them and add
    [_check_active_availability].  [Board] however calls its children as
    [child._checkActiveAvailability(...)], [child.makeMove(...)],
    [child.undoMove(...)], [child.subBoard(...)] and
    [child.getValidMoves(...)].  None of the three classes defines an
    attribute of one of these five names, nor [__getattr__], and no instance
    is given one: the attribute lookup raises [AttributeError], whichever
    class the child has.  The lookup comes after the indexing
    [self.cells[x][y]] and before the arguments of the call are evaluated.
    [M] is the type of the bound method that a successful lookup would
    return. *)
Definition no_such_method {M} (child : Placeable) : result M :=
  match child with
  | Cell _ _ => Raise AttributeError
  | Board _ _ _ _ _ _ _ => Raise AttributeError
  end.

(** [child._checkActiveAvailability]. *)
Definition _checkActiveAvailability
  : Placeable -> result (list Position -> result (list bool)) :=
  no_such_method.

(** [child.makeMove]. *)
Definition makeMove
  : Placeable -> result (Move.t -> Placeable * result bool) :=
  no_such_method.

(** [child.undoMove]. *)
Definition undoMove
  : Placeable -> result (Move.t -> Placeable * result (option bool)) :=
  no_such_method.

(** [child.subBoard]. *)
Definition subBoard
  : Placeable -> result (list Position -> result Placeable) :=
  no_such_method.

(** [child.getValidMoves], called with [active] and [first]. *)
Definition getValidMoves
  : Placeable ->
    result (option (list Position) -> bool -> result (option (list Move.t))) :=
  no_such_method.

(** [Cell._check_active_availability] and
    [Board._check_active_availability]. *)
Definition _check_active_availability (p : Placeable) (active : list Position)
  : result (list bool) :=
  match p with
  | Cell _ s => Ok [is_empty s]
  | Board pos _ _ cells _ s _ =>
      match active with
      | [] => Ok [is_empty s]
      | a :: tl =>
          if is_empty s then
            let res := match pos with Some _ => [true] | None => [] end in
            let* (x, y) := coords a in
            match cell_with _checkActiveAvailability cells x y with
            | None => Raise IndexError
            | Some attr =>
                let* method := attr in
                let* rest := method tl in
                Ok (res ++ rest)
            end
          else Ok [false]
      end
  end.

(** [raise Exception(f"Invalid move {move} played")]. *)
Definition raise_invalid_move {A} (move : Move.t) : result A :=
  let* _ := Move.str move in Raise InvalidMove.

(** [Cell.make_move] and [Board.make_move]. *)
Definition make_move (p : Placeable) (move : Move.t) : Placeable * result bool :=
  match p with
  | Cell pos s =>
      if negb (is_empty s) then (p, Ok false)
      else (Cell pos (Move.symbol move), Ok true)
  | Board pos rows cols cells gameMoves s winStreak =>
      match (let* mp := Move.position move in coords mp) with
      | Raise e => (p, Raise e)
      | Ok (x, y) =>
          if _is_in_board rows cols x y then
            match cell_with symbol cells x y with
            | None => (p, Raise IndexError)
            | Some cs =>
                if is_empty cs then
                  match cell_with makeMove cells x y with
                  | None => (p, Raise IndexError)
                  | Some (Raise e) => (p, Raise e)
                  | Some (Ok method) =>
                      match Move.sub_move move with
                      | Raise e => (p, Raise e)
                      | Ok sub =>
                          match method sub with
                          | (c', Raise e) =>
                              (Board pos rows cols (set_cell cells x y c') gameMoves s
                                     winStreak,
                               Raise e)
                          | (c', Ok true) =>
                              let cells' := set_cell cells x y c' in
                              match winner rows cols cells' winStreak with
                              | Raise e =>
                                  (Board pos rows cols cells' gameMoves s winStreak,
                                   Raise e)
                              | Ok w =>
                                  (Board pos rows cols cells' (gameMoves ++ [move]) w
                                         winStreak,
                                   Ok true)
                              end
                          | (c', Ok false) =>
                              (Board pos rows cols (set_cell cells x y c') gameMoves s
                                     winStreak,
                               raise_invalid_move move)
                          end
                      end
                  end
                else (p, raise_invalid_move move)
            end
          else (p, raise_invalid_move move)
      end
  end.

(** [raise Exception(f"Unable to undo move {move}, last played move was
    {self.gameMoves[-1]}")]. *)
Definition raise_undo_mismatch {A} (move last_move : Move.t) : result A :=
  let* _ := Move.str move in
  let* _ := Move.str last_move in
  Raise UndoMismatch.

(** [Cell.undo_move] returns a boolean, [Board.undo_move] returns [None]. *)
Definition undo_move (p : Placeable) (move : Move.t)
  : Placeable * result (option bool) :=
  match p with
  | Cell pos s =>
      if bool_decide (s = Move.symbol move) then (Cell pos GameSymbol.empty, Ok (Some true))
      else (p, Ok (Some false))
  | Board pos rows cols cells gameMoves s winStreak =>
      match py_last gameMoves with
      | Raise e => (p, Raise e)
      | Ok last_move =>
          if Move.eqb last_move move then
            match (let* mp := Move.position move in coords mp) with
            | Raise e => (p, Raise e)
            | Ok (x, y) =>
                match cell_with undoMove cells x y with
                | None => (p, Raise IndexError)
                | Some (Raise e) => (p, Raise e)
                | Some (Ok method) =>
                    match Move.sub_move move with
                    | Raise e => (p, Raise e)
                    | Ok sub =>
                        match method sub with
                        | (c', Raise e) =>
                            (Board pos rows cols (set_cell cells x y c') gameMoves s
                                   winStreak,
                             Raise e)
                        | (c', Ok _) =>
                            let cells' := set_cell cells x y c' in
                            match winner rows cols cells' winStreak with
                            | Raise e =>
                                (Board pos rows cols cells' gameMoves s winStreak, Raise e)
                            | Ok w =>
                                (Board pos rows cols cells' (removelast gameMoves) w
                                       winStreak,
                                 Ok None)
                            end
                        end
                    end
                end
            end
          else (p, raise_undo_mismatch move last_move)
      end
  end.

(** [Placeable.sub_board], which [Cell] inherits and which returns the node
    whatever it is given, and [Board.sub_board]. *)
Definition sub_board (p : Placeable) (positions : list Position) : result Placeable :=
  match p with
  | Cell _ _ => Ok p
  | Board _ _ _ cells _ _ _ =>
      match positions with
      | [] => Ok p
      | a :: tl =>
          let* (x, y) := coords a in
          match cell_with subBoard cells x y with
          | None => Raise IndexError
          | Some attr => let* method := attr in method tl
          end
      end
  end.

(** [Board.get_active]; a Cell has no such method. *)
Definition get_active (p : Placeable) : result (list Position) :=
  match p with
  | Cell _ _ => Raise AttributeError
  | Board _ _ _ _ gameMoves _ _ =>
      if (length gameMoves =? 0)%nat then Ok []
      else
        let* last_move := py_last gameMoves in
        match Move.positions last_move with
        | None => Raise TypeError
        | Some ps =>
            let* avail := _check_active_availability p (skipn 1 ps) in
            if negb (forallb (fun b => b) avail) then
              match index_of false avail with
              | Some k => Ok (py_slice ps 1 k)
              | None => Ok (skipn 1 ps)
              end
            else Ok (skipn 1 ps)
        end
  end.

(** The top-level trimming of [get_valid_moves]: any exception of the
    availability check or of [index] is swallowed and [active] is kept. *)
Definition trim_active (p : Placeable) (active : list Position) : list Position :=
  match _check_active_availability p active with
  | Ok avail =>
      match index_of false avail with
      | Some k => firstn k active
      | None => active
      end
  | Raise _ => active
  end.

(** [for move in moves] over what a child returned: iterating [None] raises. *)
Definition iterable {A} (v : option (list A)) : result (list A) :=
  match v with
  | Some l => Ok l
  | None => Raise TypeError
  end.

Fixpoint mapM {A B} (f : A -> result B) (l : list A) : result (list B) :=
  match l with
  | [] => Ok []
  | a :: l' => let* b := f a in let* bs := mapM f l' in Ok (b :: bs)
  end.

(** The top-level loop: moves with the empty placeholder get the desired
    symbol and are kept. *)
Definition fill_symbol (desired_symbol : GameSymbol.t) (moves : list Move.t)
  : list Move.t :=
  map (fun m => Move.mk (Move.positions m) desired_symbol)
      (List.filter (fun m => is_empty (Move.symbol m)) moves).

(** The loop [for pos in eCellPositions: moves.extend(...)]: [child x y] is
    the call [self.cells[x][y].getValidMoves(first=False)], [None] when the
    indexing is out of range. *)
Definition extend_moves
  (child : Z -> Z -> option (result (option (list Move.t))))
  : list Position -> result (list Move.t) :=
  fix extend (ps : list Position) : result (list Move.t) :=
    match ps with
    | [] => Ok []
    | pos :: ps' =>
        let* (x, y) := coords pos in
        match child x y with
        | None => Raise IndexError
        | Some r =>
            let* v := r in
            let* ms := iterable v in
            let* rest := extend ps' in
            Ok (ms ++ rest)
        end
    end.

(** [Cell.get_valid_moves] and [Board.get_valid_moves]; the value is a list,
    or [None] where [Cell] falls off the end of its body. *)
Definition get_valid_moves (p : Placeable) (active : option (list Position))
  (first : bool) (desired_symbol : GameSymbol.t) : result (option (list Move.t)) :=
  match p with
  | Cell pos s =>
      if is_empty s then let* m := Move.init (Some [pos]) s in Ok (Some [m])
      else Ok None
  | Board pos rows cols cells gameMoves s winStreak =>
      let* w := winner rows cols cells winStreak in
      if negb (is_empty w) then Ok (Some [])
      else
        let* active := match active with
                       | None => get_active p
                       | Some a => Ok a
                       end in
        let eCellPositions := get_empty_cells cells in
        let active := if first then trim_active p active else active in
        let* moves :=
          match active with
          | a :: tl =>
              let* (x, y) := coords a in
              match cell_with getValidMoves cells x y with
              | None => Raise IndexError
              | Some attr => let* method := attr in method (Some tl) false
              end
          | [] =>
              let* moves :=
                extend_moves
                  (fun x y =>
                     cell_with (fun c => let* method := getValidMoves c in
                                         method None false)
                               cells x y)
                  eCellPositions in
              Ok (Some moves)
          end in
        let* moves := iterable moves in
        if first then Ok (Some (fill_symbol desired_symbol moves))
        else let* res := mapM (Move.super_move [pos]) moves in Ok (Some res)
  end.

(** ** Construction *)

Definition set_position (p : Placeable) (pos : Position) : Placeable :=
  match p with
  | Cell _ s => Cell pos s
  | Board _ rows cols cells gameMoves s winStreak =>
      Board pos rows cols cells gameMoves s winStreak
  end.

(** [Cell()]. *)
Definition Cell_init : Placeable := Cell None GameSymbol.empty.

(** Row [i] of a fresh grid, for the column indices [js]: every slot holds a
    fresh instance of the cell type, here the value [child], with its position
    assigned. *)
Definition init_row (child : Placeable) (i : Z) (js : list Z) : list Placeable :=
  map (fun j => set_position child (Some (i, j))) js.

Definition init_grid (child : Placeable) (cols : Z) (ixs : list Z)
  : list (list Placeable) :=
  map (fun i => init_row child i (py_range 0 cols)) ixs.

(** [Board(dimensions, cell_type, cell_params, winStreak)]. *)
Definition Board_init (dimensions : Z * Z) (child : Placeable) (winStreak : Z)
  : Placeable :=
  Board None (fst dimensions) (snd dimensions)
        (init_grid child (snd dimensions) (py_range 0 (fst dimensions)))
        [] GameSymbol.empty winStreak.

(** [Board.layers_init(layers)]: [layers[0]] is the layer of Cells, every
    later layer wraps the one before. *)
Definition layers_init (layers : list (Z * Z * Z)) : result Placeable :=
  match layers with
  | [] => Raise IndexError
  | (dims, streak) :: outer =>
      Ok (fold_left (fun inner '(dims, streak) => Board_init dims inner streak)
                    outer (Board_init dims Cell_init streak))
  end.

(** ** Vocabulary of the properties *)

(** The mark [s] fills [k] consecutive slots of the grid, from [(x, y)] on in
    direction [(dx, dy)]. *)
Definition line_at (rows cols : Z) (cells : list (list Placeable)) (k : Z)
  (s : GameSymbol.t) (x y dx dy : Z) : bool :=
  forallb (fun i =>
             _is_in_board rows cols (x + i * dx) (y + i * dy)
             && match cell_at cells (x + i * dx) (y + i * dy) with
                | Some c => bool_decide (symbol c = s)
                | None => false
                end)
          (py_range 0 k).

(** Some row, column or diagonal of the grid holds [k >= 1] consecutive [s]. *)
Definition has_line (rows cols : Z) (cells : list (list Placeable)) (k : Z)
  (s : GameSymbol.t) : bool :=
  (1 <=? k)
  && existsb (fun x =>
       existsb (fun y =>
         existsb (fun d => line_at rows cols cells k s x y (fst d) (snd d))
                 ray_directions)
               (py_range 0 cols))
             (py_range 0 rows).

(** The grid has [rows] rows of [cols] slots each, as [range] builds it: none
    when the number is negative. *)
Definition dims_ok (rows cols : Z) (cells : list (list Placeable)) : bool :=
  (Z.of_nat (length cells) =? Z.max 0 rows)
  && forallb (fun row => Z.of_nat (length row) =? Z.max 0 cols) cells.

(** The children of row [i], from column [j] on, carry their grid index as
    position, as [Board.__init__] assigns it. *)
Fixpoint row_indexed (i j : Z) (row : list Placeable) : bool :=
  match row with
  | [] => true
  | c :: row' => bool_decide (position c = Some (i, j)) && row_indexed i (j + 1) row'
  end.

Fixpoint grid_indexed (i : Z) (cells : list (list Placeable)) : bool :=
  match cells with
  | [] => true
  | row :: cells' => row_indexed i 0 row && grid_indexed (i + 1) cells'
  end.

(** A tree as the constructors build it: at every Board the grid has the
    declared dimensions and every child carries its index. *)
Fixpoint well_formed (p : Placeable) : bool :=
  match p with
  | Cell _ _ => true
  | Board _ rows cols cells _ _ _ =>
      dims_ok rows cols cells && grid_indexed 0 cells
      && forallb (forallb well_formed) cells
  end.

(** The natural indices that [cells[x][y]] resolves to. *)
Definition resolve {A} (cells : list (list A)) (x y : Z) : option (nat * nat * list A) :=
  match py_index (length cells) x with
  | None => None
  | Some i =>
      match cells !! i with
      | None => None
      | Some row =>
          match py_index (length row) y with
          | None => None
          | Some j => Some (i, j, row)
          end
      end
  end.

#[global] Instance result_eq_dec {A} `{EqDecision A} : EqDecision (result A).
Proof. solve_decision. Defined.

(** A call on a Cell, and the log of a sequence of calls: each call with
    whether it returned [True]. *)
Inductive cell_call : Type :=
| CallMake (m : Move.t)
| CallUndo (m : Move.t).

Definition cell_call_run (c : Placeable) (k : cell_call) : Placeable * bool :=
  match k with
  | CallMake m => (fst (make_move c m), bool_decide (snd (make_move c m) = Ok true))
  | CallUndo m => (fst (undo_move c m), bool_decide (snd (undo_move c m) = Ok (Some true)))
  end.

Fixpoint cell_after (c : Placeable) (ks : list cell_call) : Placeable :=
  match ks with
  | [] => c
  | k :: ks' => cell_after (fst (cell_call_run c k)) ks'
  end.

Fixpoint cell_trace (c : Placeable) (ks : list cell_call) : list (cell_call * bool) :=
  match ks with
  | [] => []
  | k :: ks' => (k, snd (cell_call_run c k)) :: cell_trace (fst (cell_call_run c k)) ks'
  end.

(** The slot at step [i] of the ray from [(x0, y0)] in direction [(dx, dy)] is
    on the board and holds [s]. *)
Definition ray_holds (rows cols : Z) (cells : list (list Placeable))
  (x0 y0 dx dy : Z) (s : GameSymbol.t) (i : Z) : Prop :=
  _is_in_board rows cols (x0 + i * dx) (y0 + i * dy) = true /\
  exists c, cell_at cells (x0 + i * dx) (y0 + i * dy) = Some c /\ symbol c = s.

(** What the counter of [scan_ray] stands for before step [a] of a ray: the
    last [count] slots visited hold [prev], and they end at the last step that
    was on the board. *)
Definition run_before (rows cols : Z) (cells : list (list Placeable))
  (x0 y0 dx dy : Z) (a count : Z) (prev : GameSymbol.t) : Prop :=
  0 <= count /\
  (0 < count ->
   prev <> GameSymbol.empty /\
   exists j, j < a /\
     (forall t, j < t < a ->
                _is_in_board rows cols (x0 + t * dx) (y0 + t * dy) = false) /\
     forall t, 0 <= t < count -> ray_holds rows cols cells x0 y0 dx dy prev (j - t)).

(** Every Board of the tree has the symbol that its derivation gives, as
    [Board.__init__] leaves it on a grid with at least one slot. *)
Fixpoint symbol_cached (p : Placeable) : bool :=
  match p with
  | Cell _ _ => true
  | Board _ rows cols cells _ s winStreak =>
      bool_decide (winner rows cols cells winStreak = Ok s)
      && forallb (forallb symbol_cached) cells
  end.

(** * Properties *)

(** ** Indexing lemmas *)

Lemma nth_with_lookup {A B} (f : A -> B) (l : list A) (n : nat) :
  nth_with f l n = option_map f (l !! n).
Proof.
  revert n; induction l as [|a l IH]; intros [|n]; simpl; auto.
Qed.

Lemma cell_with_resolve {A B} (f : A -> B) (cells : list (list A)) x y :
  cell_with f cells x y =
  match resolve cells x y with
  | Some (i, j, row) => option_map f (row !! j)
  | None => None
  end.
Proof.
  unfold cell_with, resolve.
  destruct (py_index (length cells) x) as [i|]; [|reflexivity].
  rewrite nth_with_lookup.
  destruct (cells !! i) as [row|]; simpl; [|reflexivity].
  destruct (py_index (length row) y) as [j|]; [|reflexivity].
  apply nth_with_lookup.
Qed.

Lemma cell_with_cell_at {A B} (f : A -> B) (cells : list (list A)) x y :
  cell_with f cells x y = option_map f (cell_at cells x y).
Proof.
  unfold cell_at. rewrite !cell_with_resolve.
  destruct (resolve cells x y) as [[[i j] row]|]; [|reflexivity].
  destruct (row !! j); reflexivity.
Qed.

Lemma py_index_nonneg n i :
  0 <= i < Z.of_nat n -> py_index n i = Some (Z.to_nat i).
Proof.
  intros H. unfold py_index.
  replace ((0 <=? i) && (i <? Z.of_nat n)) with true; [reflexivity|].
  symmetry. apply andb_true_intro. split; lia.
Qed.

Lemma resolve_row {A} (cells : list (list A)) x y i j row :
  resolve cells x y = Some (i, j, row) ->
  py_index (length cells) x = Some i /\ cells !! i = Some row /\
  py_index (length row) y = Some j.
Proof.
  unfold resolve.
  destruct (py_index (length cells) x) as [i'|]; [|discriminate].
  destruct (cells !! i') as [row'|] eqn:E; [|discriminate].
  destruct (py_index (length row') y) as [j'|] eqn:E'; [|discriminate].
  intros [= -> -> ->]. auto.
Qed.

(** ** Cell: occupancy *)

Lemma cell_trace_split c ks l1 l2 :
  cell_trace c ks = l1 ++ l2 ->
  exists ks1 ks2, ks = ks1 ++ ks2 /\ cell_trace c ks1 = l1 /\
                  cell_trace (cell_after c ks1) ks2 = l2.
Proof.
  revert c ks; induction l1 as [|e l1 IH]; intros c ks H.
  - exists [], ks. auto.
  - destruct ks as [|k ks]; [discriminate|]. simpl in H.
    injection H as He Hrest.
    destruct (IH _ _ Hrest) as (ks1 & ks2 & -> & H1 & H2).
    exists (k :: ks1), ks2. simpl. rewrite H1, He. auto.
Qed.

Lemma cell_call_run_cell pos s k :
  exists s', fst (cell_call_run (Cell pos s) k) = Cell pos s'.
Proof.
  destruct k as [m|m]; simpl.
  - destruct (negb (is_empty s)); simpl; eauto.
  - destruct (bool_decide (s = Move.symbol m)); simpl; eauto.
Qed.

Lemma cell_after_cell pos s ks : exists s', cell_after (Cell pos s) ks = Cell pos s'.
Proof.
  revert s; induction ks as [|k ks IH]; intros s; simpl; eauto.
  destruct (cell_call_run_cell pos s k) as [s' ->]. apply IH.
Qed.

Lemma is_empty_true s : is_empty s = true <-> s = GameSymbol.empty.
Proof. unfold is_empty. apply bool_decide_eq_true. Qed.

Lemma is_empty_false s : is_empty s = false <-> s <> GameSymbol.empty.
Proof. unfold is_empty. apply bool_decide_eq_false. Qed.

(** An occupied cell stays occupied as long as no undo succeeds. *)
Lemma occupied_until_undo pos ks : forall s s',
  s <> GameSymbol.empty ->
  cell_after (Cell pos s) ks = Cell pos s' ->
  s' = GameSymbol.empty ->
  exists m, In (CallUndo m, true) (cell_trace (Cell pos s) ks).
Proof.
  induction ks as [|k ks IH]; intros s s' Hs Hafter Hs'.
  - simpl in Hafter. congruence.
  - destruct k as [m|m]; cbn [cell_after cell_trace] in *.
    + assert (E : cell_call_run (Cell pos s) (CallMake m) = (Cell pos s, false)).
      { simpl. apply is_empty_false in Hs. rewrite Hs. reflexivity. }
      rewrite E in *. simpl in *.
      destruct (IH s s' Hs Hafter Hs') as [m' Hm']. eauto.
    + simpl in *. destruct (bool_decide (s = Move.symbol m)); simpl in *.
      * exists m. left. reflexivity.
      * destruct (IH s s' Hs Hafter Hs') as [m' Hm']. eauto.
Qed.

(** C7, the claim as stated fails: a move that carries the empty symbol
    succeeds on an empty cell and leaves it empty, so [make_move] succeeds
    twice in a row with no undo in between. *)
Lemma Cell_make_move_twice_with_empty_symbol :
  cell_trace Cell_init
    [CallMake (Move.mk None GameSymbol.empty); CallMake (Move.mk None GameSymbol.empty)]
  = [(CallMake (Move.mk None GameSymbol.empty), true);
     (CallMake (Move.mk None GameSymbol.empty), true)].
Proof. reflexivity. Qed.

(** C7 (amended): [Cell.make_move] returns [True] and stores [move.symbol]
    exactly when the slot is empty, and otherwise returns [False], raising
    nothing and changing nothing.  When the stored symbol is not the empty
    one, no later [make_move] on the cell succeeds before an [undo_move] has
    succeeded in between. *)
Theorem Cell_make_move_occupancy pos s :
  (forall m, snd (make_move (Cell pos s) m) = Ok true <-> s = GameSymbol.empty) /\
  (forall m, s = GameSymbol.empty ->
             make_move (Cell pos s) m = (Cell pos (Move.symbol m), Ok true)) /\
  (forall m, s <> GameSymbol.empty ->
             make_move (Cell pos s) m = (Cell pos s, Ok false)) /\
  (forall ks pre m1 mid m2 post,
      cell_trace (Cell pos s) ks
      = pre ++ (CallMake m1, true) :: mid ++ (CallMake m2, true) :: post ->
      Move.symbol m1 <> GameSymbol.empty ->
      exists m, In (CallUndo m, true) mid).
Proof.
  split; [|split; [|split]].
  - intros m. simpl. destruct (is_empty s) eqn:E; simpl.
    + apply is_empty_true in E. tauto.
    + apply is_empty_false in E. split; [discriminate|tauto].
  - intros m ->. reflexivity.
  - intros m Hs. apply is_empty_false in Hs. simpl. rewrite Hs. reflexivity.
  - intros ks pre m1 mid m2 post Htrace Hm1.
    apply cell_trace_split in Htrace as (ks1 & ks2 & -> & _ & H2).
    destruct (cell_after_cell pos s ks1) as [s1 E1]. rewrite E1 in H2.
    destruct ks2 as [|k ks2]; [discriminate|].
    cbn [cell_trace] in H2. injection H2 as Hk Hok Hrest. subst k.
    simpl in Hok, Hrest.
    destruct (is_empty s1) eqn:Es1; simpl in Hok, Hrest; [|discriminate].
    apply cell_trace_split in Hrest as (ksm & ks3 & -> & Hmid & H3).
    destruct (cell_after_cell pos (Move.symbol m1) ksm) as [s2 E2].
    rewrite E2 in H3.
    destruct ks3 as [|k ks3]; [discriminate|].
    cbn [cell_trace] in H3. injection H3 as Hk Hok2 _. subst k.
    simpl in Hok2.
    destruct (is_empty s2) eqn:Es2; simpl in Hok2; [|discriminate].
    apply is_empty_true in Es2.
    rewrite <- Hmid. eapply occupied_until_undo; eauto.
Qed.

Lemma Cell_make_move_occupancy_witness :
  make_move (Cell (Some (0, 0)) GameSymbol.O) (Move.mk None GameSymbol.X)
  = (Cell (Some (0, 0)) GameSymbol.O, Ok false).
Proof.
  apply (proj1 (proj2 (proj2 (Cell_make_move_occupancy (Some (0, 0)) GameSymbol.O)))).
  discriminate.
Defined.

(** ** Cell: legal moves *)

Lemma Cell_get_valid_moves_empty pos active first desired_symbol :
  get_valid_moves (Cell pos GameSymbol.empty) active first desired_symbol
  = Ok (Some [Move.mk (Some [pos]) GameSymbol.empty]).
Proof. reflexivity. Qed.

Lemma Cell_get_valid_moves_occupied pos s active first desired_symbol :
  s <> GameSymbol.empty ->
  get_valid_moves (Cell pos s) active first desired_symbol = Ok None.
Proof. intros Hs. apply is_empty_false in Hs. simpl. rewrite Hs. reflexivity. Qed.

(** C8: on an empty cell [Cell.get_valid_moves] returns the one candidate
    with the cell's position as path and the empty placeholder as symbol; on
    an occupied cell it runs off the end of its body: the value is [None], not
    the empty list that the method's docstring announces. *)
Theorem Cell_get_valid_moves_occupied_is_None pos s active first desired_symbol :
  get_valid_moves (Cell pos GameSymbol.empty) active first desired_symbol
  = Ok (Some [Move.mk (Some [pos]) GameSymbol.empty]) /\
  (s <> GameSymbol.empty ->
   get_valid_moves (Cell pos s) active first desired_symbol = Ok None /\
   get_valid_moves (Cell pos s) active first desired_symbol <> Ok (Some [])).
Proof.
  split; [apply Cell_get_valid_moves_empty|].
  intros Hs. rewrite (Cell_get_valid_moves_occupied _ _ _ _ _ Hs).
  split; [reflexivity|discriminate].
Qed.

Lemma Cell_get_valid_moves_occupied_is_None_witness :
  get_valid_moves (Cell (Some (0, 0)) GameSymbol.X) (Some []) true GameSymbol.empty
  = Ok None /\
  get_valid_moves (Cell (Some (0, 0)) GameSymbol.X) (Some []) true GameSymbol.empty
  <> Ok (Some []).
Proof.
  apply (proj2 (Cell_get_valid_moves_occupied_is_None
                  (Some (0, 0)) GameSymbol.X (Some []) true GameSymbol.empty)).
  discriminate.
Defined.

(** ** Board: rejected calls *)

Lemma Move_position_str m p : Move.position m = Ok p -> Move.str m = Ok tt.
Proof.
  unfold Move.position, Move.str. destruct (Move.positions m) as [[|]|]; now intros.
Qed.

(** C9: a move whose target coordinates are outside the grid makes
    [Board.make_move] raise the invalid-move exception, and the Board (cells,
    symbol and history) is as before. *)
Theorem make_move_out_of_bounds pos rows cols cells gameMoves s winStreak m x y :
  Move.position m = Ok (Some (x, y)) ->
  _is_in_board rows cols x y = false ->
  make_move (Board pos rows cols cells gameMoves s winStreak) m
  = (Board pos rows cols cells gameMoves s winStreak, Raise InvalidMove).
Proof.
  intros Hpos Hout. cbn [make_move]. rewrite Hpos. cbn [bind coords].
  rewrite Hout. unfold raise_invalid_move.
  rewrite (Move_position_str _ _ Hpos). reflexivity.
Qed.

Lemma make_move_out_of_bounds_witness :
  make_move (Board_init (3, 3) Cell_init 3) (Move.mk (Some [Some (3, 0)]) GameSymbol.X)
  = (Board_init (3, 3) Cell_init 3, Raise InvalidMove).
Proof.
  apply (make_move_out_of_bounds None 3 3 _ [] GameSymbol.empty 3
           (Move.mk (Some [Some (3, 0)]) GameSymbol.X) 3 0); reflexivity.
Defined.

(** C10: with an empty history [Board.undo_move] raises [IndexError] from
    [self.gameMoves[-1]], before the comparison that guards the mismatch
    exception, and the Board is as before. *)
Theorem undo_move_empty_history pos rows cols cells s winStreak m :
  undo_move (Board pos rows cols cells [] s winStreak) m
  = (Board pos rows cols cells [] s winStreak, Raise IndexError).
Proof. reflexivity. Qed.

(** ** Board: the lookup of the child calls *)

Lemma cell_with_no_such_method {M} (cells : list (list Placeable)) x y c :
  cell_at cells x y = Some c ->
  cell_with (no_such_method (M:=M)) cells x y = Some (Raise AttributeError).
Proof. intros H. rewrite cell_with_cell_at, H. destruct c; reflexivity. Qed.

(** Whatever the slot holds, the lookup of a missing name gives no method. *)
Lemma cell_with_no_such_method_cases {M} (cells : list (list Placeable)) x y :
  cell_with (no_such_method (M:=M)) cells x y = None \/
  cell_with (no_such_method (M:=M)) cells x y = Some (Raise AttributeError).
Proof.
  rewrite cell_with_cell_at. destruct (cell_at cells x y) as [[| ]|]; auto.
Qed.

(** ** Board: availability along an active path *)

(** C5: with an empty path the answer is the single boolean "this Board is
    undecided", and a decided or drawn Board answers [[false]] whatever the
    path.  An undecided Board with a non-empty path does not get to the
    child's availability: the first position of the path addressing a child,
    the lookup of [_checkActiveAvailability] on that child raises
    [AttributeError]. *)
Theorem availability_along_path pos rows cols cells gameMoves s winStreak :
  _check_active_availability (Board pos rows cols cells gameMoves s winStreak) []
  = Ok [is_empty s] /\
  (forall active, s <> GameSymbol.empty ->
     _check_active_availability (Board pos rows cols cells gameMoves s winStreak) active
     = Ok [false]) /\
  (forall x y tl c, s = GameSymbol.empty -> cell_at cells x y = Some c ->
     _check_active_availability (Board pos rows cols cells gameMoves s winStreak)
                                (Some (x, y) :: tl)
     = Raise AttributeError).
Proof.
  split; [reflexivity|split].
  - intros active Hs. apply is_empty_false in Hs.
    destruct active; cbn [_check_active_availability]; rewrite Hs; reflexivity.
  - intros x y tl c -> Hc. cbn [_check_active_availability].
    change (is_empty GameSymbol.empty) with true. cbn [bind coords].
    unfold _checkActiveAvailability.
    rewrite (cell_with_no_such_method _ _ _ _ Hc). reflexivity.
Qed.

Lemma availability_along_path_witness :
  _check_active_availability
    (Board None 1 1 [[Cell (Some (0, 0)) GameSymbol.empty]] [] GameSymbol.empty 1)
    [Some (0, 0)]
  = Raise AttributeError.
Proof.
  apply (proj2 (proj2 (availability_along_path None 1 1
                         [[Cell (Some (0, 0)) GameSymbol.empty]] [] GameSymbol.empty 1))
           0 0 [] (Cell (Some (0, 0)) GameSymbol.empty)); reflexivity.
Defined.

(** ** Board: win detection *)

Lemma py_range_nil a b : b <= a -> py_range a b = [].
Proof.
  intros H. unfold py_range. replace (Z.to_nat (b - a)) with O by lia. reflexivity.
Qed.

Lemma py_range_cons a b : a < b -> py_range a b = a :: py_range (a + 1) b.
Proof.
  intros H. unfold py_range.
  replace (Z.to_nat (b - a)) with (S (Z.to_nat (b - (a + 1)))) by lia.
  cbn [seq map]. f_equal; [lia|].
  rewrite <- seq_shift, map_map. apply map_ext. intros i. lia.
Qed.

Lemma in_py_range a b i : In i (py_range a b) <-> a <= i < b.
Proof.
  unfold py_range. rewrite in_map_iff. split.
  - intros (n & <- & Hn). apply in_seq in Hn. lia.
  - intros H. exists (Z.to_nat (i - a)). split; [lia|]. apply in_seq. lia.
Qed.

Lemma is_in_board_spec rows cols x y :
  _is_in_board rows cols x y = true <-> 0 <= x < rows /\ 0 <= y < cols.
Proof.
  unfold _is_in_board. rewrite !andb_true_iff. lia.
Qed.

Section RayScan.
Variables (rows cols : Z) (cells : list (list Placeable)) (k : Z).
Variables (x0 y0 dx dy : Z).
Hypothesis Hk : 1 <= k.
Hypothesis Hdir : In (dx, dy) ray_directions.

Local Abbreviation holds := (ray_holds rows cols cells x0 y0 dx dy).
Local Abbreviation run_before := (run_before rows cols cells x0 y0 dx dy).

(** The steps of a ray that are on the board form an interval. *)
Lemma ray_convex i j t :
  i <= t <= j ->
  _is_in_board rows cols (x0 + i * dx) (y0 + i * dy) = true ->
  _is_in_board rows cols (x0 + j * dx) (y0 + j * dy) = true ->
  _is_in_board rows cols (x0 + t * dx) (y0 + t * dy) = true.
Proof.
  intros Ht Hi Hj. apply is_in_board_spec in Hi, Hj. apply is_in_board_spec.
  simpl in Hdir.
  destruct Hdir as [E|[E|[E|[E|[]]]]]; injection E as <- <-; lia.
Qed.

Lemma run_extends a count prev c :
  run_before a count prev ->
  _is_in_board rows cols (x0 + a * dx) (y0 + a * dy) = true ->
  cell_at cells (x0 + a * dx) (y0 + a * dy) = Some c ->
  (0 < count -> symbol c = prev) ->
  forall t, 0 <= t < count + 1 -> holds (symbol c) (a - t).
Proof.
  intros [Hc Hrun] Hin Hat Hsame t Ht.
  destruct (Z.eq_dec t 0) as [->|Hne].
  - replace (a - 0) with a by lia. split; [exact Hin|eauto].
  - assert (Hpos : 0 < count) by lia.
    destruct (Hrun Hpos) as (_ & j & Hj & Hgap & Hheld).
    rewrite (Hsame Hpos).
    assert (j = a - 1) as ->.
    { destruct (Z.eq_dec j (a - 1)) as [|Hn]; [assumption|exfalso].
      assert (Hj0 : holds prev (j - 0)) by (apply Hheld; lia).
      destruct Hj0 as [Hjin _]. replace (j - 0) with j in Hjin by lia.
      specialize (Hgap (a - 1) ltac:(lia)).
      rewrite (ray_convex j a (a - 1) ltac:(lia) Hjin Hin) in Hgap. discriminate. }
    replace (a - t) with (a - 1 - (t - 1)) by lia. apply Hheld. lia.
Qed.

Lemma scan_ray_sound n : forall a b ray count prev s,
  Z.to_nat (b - a) = n ->
  run_before a count prev ->
  ray_cells rows cols cells x0 y0 dx dy (py_range a b) = Ok ray ->
  scan_ray k ray count prev = Some s ->
  s <> GameSymbol.empty /\ exists j, forall t, 0 <= t < k -> holds s (j - t).
Proof.
  induction n as [|n IH]; intros a b ray count prev s Hn Hrun Hray Hscan.
  - rewrite py_range_nil in Hray by lia. injection Hray as <-. discriminate.
  - rewrite py_range_cons in Hray by lia. cbn [ray_cells] in Hray.
    destruct (_is_in_board rows cols (x0 + a * dx) (y0 + a * dy)) eqn:Hin.
    + destruct (cell_at cells (x0 + a * dx) (y0 + a * dy)) as [c|] eqn:Hat;
        [|discriminate].
      destruct (ray_cells rows cols cells x0 y0 dx dy (py_range (a + 1) b))
        as [rest|] eqn:Hrest; [|discriminate].
      injection Hray as <-. cbn [scan_ray] in Hscan.
      destruct (negb (is_empty (symbol c))
                && (bool_decide (symbol c = prev) || is_empty prev)) eqn:Hcond.
      * apply andb_prop in Hcond as [Hne Hsame].
        apply negb_true_iff, is_empty_false in Hne.
        assert (Hsame' : 0 < count -> symbol c = prev).
        { intros Hpos. destruct Hrun as [_ Hrun].
          destruct (Hrun Hpos) as (Hprev & _).
          apply orb_prop in Hsame as [Hs|Hs].
          - now apply bool_decide_eq_true in Hs.
          - apply is_empty_true in Hs. contradiction. }
        pose proof (run_extends _ _ _ _ Hrun Hin Hat Hsame') as Hheld.
        destruct (count + 1 =? k) eqn:Hhit.
        -- injection Hscan as <-. split; [exact Hne|].
           exists a. intros t Ht. apply Hheld. lia.
        -- apply (IH (a + 1) b rest (count + 1) (symbol c) s); auto; [lia|].
           split; [destruct Hrun; lia|]. intros _. split; [exact Hne|].
           exists a. split; [lia|]. split; [intros t Ht; lia|exact Hheld].
      * destruct (0 =? k) eqn:Hhit; [lia|].
        apply (IH (a + 1) b rest 0 (symbol c) s); auto; [lia|].
        split; [lia|]. intros H; lia.
    + apply (IH (a + 1) b ray count prev s); auto; [lia|].
      destruct Hrun as [Hc Hrun]. split; [exact Hc|].
      intros Hpos. destruct (Hrun Hpos) as (Hprev & j & Hj & Hgap & Hheld).
      split; [exact Hprev|]. exists j. split; [lia|]. split; [|exact Hheld].
      intros t Ht. destruct (Z.eq_dec t a) as [->|]; [exact Hin|apply Hgap; lia].
Qed.

(** A hit of the scan is a line of [k] marks on the board. *)
Lemma scan_ray_line ray s :
  _dxdy_ray rows cols cells k x0 y0 dx dy None = Ok ray ->
  scan_ray k ray 0 GameSymbol.empty = Some s ->
  s <> GameSymbol.empty /\ has_line rows cols cells k s = true.
Proof.
  intros Hray Hscan. unfold _dxdy_ray in Hray.
  destruct (scan_ray_sound _ (- k) k ray 0 GameSymbol.empty s eq_refl) as [Hs [j Hj]];
    auto.
  { split; [lia|]. intros H; lia. }
  split; [exact Hs|].
  unfold has_line. apply andb_true_intro. split; [lia|].
  destruct (Hj (k - 1) ltac:(lia)) as [Hstart _].
  apply is_in_board_spec in Hstart.
  apply existsb_exists. exists (x0 + (j - (k - 1)) * dx).
  split; [apply in_py_range; lia|].
  apply existsb_exists. exists (y0 + (j - (k - 1)) * dy).
  split; [apply in_py_range; lia|].
  apply existsb_exists. exists (dx, dy). split; [exact Hdir|].
  unfold line_at. apply forallb_forall. intros i Hi. apply in_py_range in Hi.
  cbn [fst snd].
  destruct (Hj (k - 1 - i) ltac:(lia)) as [Hin (c & Hat & Hsym)].
  replace (x0 + (j - (k - 1)) * dx + i * dx) with (x0 + (j - (k - 1 - i)) * dx) by lia.
  replace (y0 + (j - (k - 1)) * dy + i * dy) with (y0 + (j - (k - 1 - i)) * dy) by lia.
  rewrite Hin, Hat. simpl. now apply bool_decide_eq_true.
Qed.
End RayScan.

Section WinnerSound.
Variables (rows cols : Z) (cells : list (list Placeable)) (k : Z).

Lemma check_directions_sound x0 y0 ds s :
  (forall d, In d ds -> In d ray_directions) ->
  check_directions rows cols cells k x0 y0 None ds = Ok s ->
  s <> GameSymbol.empty ->
  has_line rows cols cells k s = true.
Proof.
  induction ds as [|[dx dy] ds IH]; intros Hds Hcheck Hs.
  - injection Hcheck as <-. contradiction.
  - cbn [check_directions] in Hcheck.
    destruct (_dxdy_ray rows cols cells k x0 y0 dx dy None) as [ray|] eqn:Hray;
      [|discriminate].
    cbn [bind] in Hcheck.
    destruct (scan_ray k ray 0 GameSymbol.empty) as [s'|] eqn:Hscan.
    + injection Hcheck as ->.
      destruct (Z_le_dec 1 k) as [Hk|Hk].
      * eapply scan_ray_line; eauto. apply Hds. left. reflexivity.
      * unfold _dxdy_ray in Hray. rewrite py_range_nil in Hray by lia.
        injection Hray as <-. discriminate.
    + apply IH; auto. intros d Hd. apply Hds. right. exact Hd.
Qed.

(** Soundness of the ray-cast check: a mark it reports fills a line. *)
Lemma check_winner_from_pos_sound pos s :
  _check_winner_from_pos rows cols cells k pos None = Ok s ->
  s <> GameSymbol.empty ->
  has_line rows cols cells k s = true.
Proof.
  unfold _check_winner_from_pos. destruct pos as [[x0 y0]|]; [|discriminate].
  cbn [coords bind]. apply check_directions_sound. auto.
Qed.

Lemma winner_cells_sound cs w :
  winner_cells rows cols cells k cs GameSymbol.empty = Ok w ->
  w <> GameSymbol.empty ->
  has_line rows cols cells k w = true \/
  (w = GameSymbol.full /\ empty_cells cells = 0).
Proof.
  induction cs as [|c cs IH]; intros Hw Hne.
  - cbn [winner_cells] in Hw. destruct (empty_cells cells =? 0) eqn:E.
    + injection Hw as <-. right. split; [reflexivity|lia].
    + injection Hw as <-. contradiction.
  - cbn [winner_cells] in Hw.
    destruct (_check_winner_from_pos rows cols cells k (position c) None)
      as [res|] eqn:Hres; [|discriminate].
    cbn [bind] in Hw. destruct (is_empty res) eqn:E; cbn [negb] in Hw.
    + apply is_empty_true in E. subst res. auto.
    + injection Hw as <-. left. eapply check_winner_from_pos_sound; eauto.
Qed.

(** Soundness of [winner]: a mark it reports fills a line of [winStreak]
    slots, unless it is the draw marker of an exhausted grid. *)
Lemma winner_sound w :
  winner rows cols cells k = Ok w ->
  w <> GameSymbol.empty ->
  has_line rows cols cells k w = true \/
  (w = GameSymbol.full /\ empty_cells cells = 0).
Proof. apply winner_cells_sound. Qed.

End WinnerSound.

(** ** Board: the derivation never fails on a well-formed grid *)

Lemma dims_ok_spec rows cols cells :
  dims_ok rows cols cells = true <->
  Z.of_nat (length cells) = Z.max 0 rows /\
  Forall (fun row => Z.of_nat (length row) = Z.max 0 cols) cells.
Proof.
  unfold dims_ok. rewrite andb_true_iff, forallb_forall, List.Forall_forall.
  split; intros [H1 H2]; (split; [lia|]); intros row Hrow; specialize (H2 row Hrow); lia.
Qed.

Lemma dims_ok_cell_at rows cols (cells : list (list Placeable)) x y :
  dims_ok rows cols cells = true ->
  _is_in_board rows cols x y = true ->
  exists c, cell_at cells x y = Some c.
Proof.
  intros Hd Hin. apply dims_ok_spec in Hd as [Hr Hc].
  apply is_in_board_spec in Hin as [Hx Hy].
  unfold cell_at. rewrite cell_with_resolve. unfold resolve.
  rewrite py_index_nonneg by lia.
  destruct (lookup_lt_is_Some_2 cells (Z.to_nat x) ltac:(lia)) as [row Hrow].
  rewrite Hrow.
  rewrite Forall_lookup in Hc. specialize (Hc _ _ Hrow).
  rewrite py_index_nonneg by lia.
  destruct (lookup_lt_is_Some_2 row (Z.to_nat y) ltac:(lia)) as [c Hcell].
  rewrite Hcell. eauto.
Qed.

Section WinnerTotal.
Variables (rows cols : Z) (cells : list (list Placeable)) (k : Z).
Hypothesis Hdims : dims_ok rows cols cells = true.

Lemma ray_cells_total x0 y0 dx dy idx :
  exists ray, ray_cells rows cols cells x0 y0 dx dy idx = Ok ray.
Proof.
  induction idx as [|i idx [ray IH]]; cbn [ray_cells]; [eauto|].
  destruct (_is_in_board rows cols (x0 + i * dx) (y0 + i * dy)) eqn:Hin; [|eauto].
  destruct (dims_ok_cell_at _ _ _ _ _ Hdims Hin) as [c ->].
  rewrite IH. cbn [bind]. eauto.
Qed.

Lemma check_directions_total x0 y0 ds :
  exists s, check_directions rows cols cells k x0 y0 None ds = Ok s.
Proof.
  induction ds as [|[dx dy] ds IH]; cbn [check_directions]; [eauto|].
  unfold _dxdy_ray.
  destruct (ray_cells_total x0 y0 dx dy (py_range (- k) k)) as [ray ->].
  cbn [bind]. destruct (scan_ray k ray 0 GameSymbol.empty); eauto.
Qed.

Lemma winner_cells_total cs res :
  Forall (fun c => position c <> None) cs ->
  exists w, winner_cells rows cols cells k cs res = Ok w.
Proof.
  intros Hpos. revert res.
  induction Hpos as [|c cs Hc Hcs IH]; intros res; cbn [winner_cells].
  - destruct (empty_cells cells =? 0); eauto.
  - unfold _check_winner_from_pos.
    destruct (position c) as [[x0 y0]|]; [|contradiction].
    cbn [coords bind].
    destruct (check_directions_total x0 y0 ray_directions) as [s ->].
    cbn [bind]. destruct (negb (is_empty s)); eauto.
Qed.
End WinnerTotal.

Lemma row_indexed_positioned i j row :
  row_indexed i j row = true -> Forall (fun c => position c <> None) row.
Proof.
  revert j; induction row as [|c row IH]; intros j H; [constructor|].
  cbn [row_indexed] in H. apply andb_prop in H as [Hc Hrow].
  apply bool_decide_eq_true in Hc.
  constructor; [congruence|eauto].
Qed.

Lemma grid_indexed_positioned i cells :
  grid_indexed i cells = true -> Forall (fun c => position c <> None) (concat cells).
Proof.
  revert i; induction cells as [|row cells IH]; intros i H; [constructor|].
  cbn [grid_indexed] in H. apply andb_prop in H as [Hrow Hcells].
  cbn [concat]. apply Forall_app. split.
  - eapply row_indexed_positioned; eauto.
  - eauto.
Qed.

(** On a grid of the declared dimensions whose children carry positions,
    [winner] returns. *)
Lemma winner_total rows cols cells k :
  dims_ok rows cols cells = true ->
  Forall (fun c => position c <> None) (concat cells) ->
  exists w, winner rows cols cells k = Ok w.
Proof. intros Hd Hp. apply winner_cells_total; assumption. Qed.

(** C3: [winner] misses a run that follows a different mark and ends at the
    edge of the grid.  On a grid of one row [_ X O O O] with [winStreak = 3],
    three [O] fill an unbroken line, and [winner] is "empty": at the change
    from [X] to [O] the counter restarts at 0, not at 1, and every window that
    covers the run also covers the [X] before it. *)
Theorem winner_misses_run_after_other_mark :
  line_at 1 5
    [[Cell (Some (0, 0)) GameSymbol.empty; Cell (Some (0, 1)) GameSymbol.X;
      Cell (Some (0, 2)) GameSymbol.O; Cell (Some (0, 3)) GameSymbol.O;
      Cell (Some (0, 4)) GameSymbol.O]] 3 GameSymbol.O 0 2 0 1 = true /\
  has_line 1 5
    [[Cell (Some (0, 0)) GameSymbol.empty; Cell (Some (0, 1)) GameSymbol.X;
      Cell (Some (0, 2)) GameSymbol.O; Cell (Some (0, 3)) GameSymbol.O;
      Cell (Some (0, 4)) GameSymbol.O]] 3 GameSymbol.O = true /\
  winner 1 5
    [[Cell (Some (0, 0)) GameSymbol.empty; Cell (Some (0, 1)) GameSymbol.X;
      Cell (Some (0, 2)) GameSymbol.O; Cell (Some (0, 3)) GameSymbol.O;
      Cell (Some (0, 4)) GameSymbol.O]] 3 = Ok GameSymbol.empty.
Proof. repeat split; vm_compute; reflexivity. Qed.

(** The same run is found when an empty slot, not a mark, precedes it. *)
Lemma winner_finds_run_after_empty_slot :
  winner 1 5
    [[Cell (Some (0, 0)) GameSymbol.X; Cell (Some (0, 1)) GameSymbol.empty;
      Cell (Some (0, 2)) GameSymbol.O; Cell (Some (0, 3)) GameSymbol.O;
      Cell (Some (0, 4)) GameSymbol.O]] 3 = Ok GameSymbol.O.
Proof. vm_compute; reflexivity. Qed.

(** ** Board: final symbol *)

(** C6: [final_symbol] is the winner's mark when [winner] is not empty;
    otherwise the draw marker when no slot is empty; otherwise [None], which
    is neither the empty symbol nor the draw marker.  A grid with no empty
    slot and no line of a player's mark has the draw marker as final symbol. *)
Theorem final_symbol_cases rows cols cells winStreak :
  (forall w, winner rows cols cells winStreak = Ok w -> w <> GameSymbol.empty ->
             final_symbol rows cols cells winStreak = Ok (Some w)) /\
  (winner rows cols cells winStreak = Ok GameSymbol.empty -> empty_cells cells = 0 ->
   final_symbol rows cols cells winStreak = Ok (Some GameSymbol.full)) /\
  (winner rows cols cells winStreak = Ok GameSymbol.empty -> empty_cells cells <> 0 ->
   final_symbol rows cols cells winStreak = Ok None /\
   None <> Some GameSymbol.empty /\ None <> Some GameSymbol.full) /\
  (dims_ok rows cols cells = true -> grid_indexed 0 cells = true ->
   empty_cells cells = 0 ->
   (forall s, s <> GameSymbol.empty -> s <> GameSymbol.full ->
              has_line rows cols cells winStreak s = false) ->
   final_symbol rows cols cells winStreak = Ok (Some GameSymbol.full)).
Proof.
  unfold final_symbol. split; [|split; [|split]].
  - intros w -> Hw. cbn [bind]. apply is_empty_false in Hw. rewrite Hw. reflexivity.
  - intros -> He. cbn [bind]. rewrite He. reflexivity.
  - intros -> He. cbn [bind]. apply Z.eqb_neq in He. rewrite He.
    cbn. repeat split; discriminate.
  - intros Hd Hi He Hno.
    destruct (winner_total rows cols cells winStreak Hd
                (grid_indexed_positioned _ _ Hi)) as [w Hw].
    rewrite Hw. cbn [bind]. destruct (is_empty w) eqn:E; cbn [negb].
    + rewrite He. reflexivity.
    + apply is_empty_false in E.
      destruct (winner_sound _ _ _ _ _ Hw E) as [Hline|[-> _]]; [|reflexivity].
      destruct (decide (w = GameSymbol.full)) as [->|Hnf]; [reflexivity|].
      rewrite (Hno w E Hnf) in Hline. discriminate.
Qed.

Lemma final_symbol_cases_witness :
  final_symbol 3 3
    [[Cell (Some (0, 0)) GameSymbol.X; Cell (Some (0, 1)) GameSymbol.O;
      Cell (Some (0, 2)) GameSymbol.X];
     [Cell (Some (1, 0)) GameSymbol.X; Cell (Some (1, 1)) GameSymbol.O;
      Cell (Some (1, 2)) GameSymbol.O];
     [Cell (Some (2, 0)) GameSymbol.O; Cell (Some (2, 1)) GameSymbol.X;
      Cell (Some (2, 2)) GameSymbol.X]] 3
  = Ok (Some GameSymbol.full).
Proof.
  apply (proj2 (proj2 (proj2 (final_symbol_cases 3 3 _ 3)))).
  - reflexivity.
  - reflexivity.
  - reflexivity.
  - intros s H1 H2. destruct s; try contradiction; reflexivity.
Defined.

(** ** Grids and their indices *)

Lemma cell_at_resolve {A} (cells : list (list A)) x y c :
  cell_at cells x y = Some c <->
  exists i j row, resolve cells x y = Some (i, j, row) /\ row !! j = Some c.
Proof.
  unfold cell_at. rewrite cell_with_resolve.
  destruct (resolve cells x y) as [[[i j] row]|].
  - destruct (row !! j) as [c'|] eqn:E; simpl; split.
    + intros [= ->]. eauto.
    + intros (i' & j' & row' & [= <- <- <-] & H). congruence.
    + discriminate.
    + intros (i' & j' & row' & [= <- <- <-] & H). congruence.
  - split; [discriminate|]. intros (i & j & row & H & _). discriminate.
Qed.

Lemma well_formed_board pos rows cols cells gm s k :
  well_formed (Board pos rows cols cells gm s k) = true <->
  dims_ok rows cols cells = true /\ grid_indexed 0 cells = true /\
  forallb (forallb well_formed) cells = true.
Proof. cbn [well_formed]. rewrite !andb_true_iff. tauto. Qed.

Lemma symbol_cached_board pos rows cols cells gm s k :
  symbol_cached (Board pos rows cols cells gm s k) = true <->
  winner rows cols cells k = Ok s /\ forallb (forallb symbol_cached) cells = true.
Proof.
  cbn [symbol_cached]. rewrite andb_true_iff, bool_decide_eq_true. tauto.
Qed.



Lemma py_index_nonneg_inv n x i : 0 <= x -> py_index n x = Some i -> x = Z.of_nat i.
Proof.
  intros Hx. unfold py_index.
  destruct ((0 <=? x) && (x <? Z.of_nat n)); [intros [= <-]; lia|].
  destruct ((- Z.of_nat n <=? x) && (x <? 0)) eqn:E; [|discriminate].
  apply andb_prop in E as [_ E]. lia.
Qed.


(** ** Construction establishes the invariants *)

Lemma set_position_facts c pos :
  position (set_position c pos) = pos /\
  symbol (set_position c pos) = symbol c /\
  well_formed (set_position c pos) = well_formed c /\
  symbol_cached (set_position c pos) = symbol_cached c.
Proof. destruct c; repeat split; reflexivity. Qed.

Lemma py_range_length a b : Z.of_nat (length (py_range a b)) = Z.max 0 (b - a).
Proof. unfold py_range. rewrite length_map, length_seq. lia. Qed.

Section BoardInit.
Variables (rows cols : Z) (child : Placeable) (k : Z).

Lemma Board_init_unfold :
  Board_init (rows, cols) child k
  = Board None rows cols (init_grid child cols (py_range 0 rows)) [] GameSymbol.empty k.
Proof. reflexivity. Qed.

Lemma init_row_indexed i n : forall a b,
  Z.to_nat (b - a) = n -> row_indexed i a (init_row child i (py_range a b)) = true.
Proof.
  induction n as [|n IH]; intros a b Hn.
  - rewrite py_range_nil by lia. reflexivity.
  - rewrite py_range_cons by lia. cbn [init_row map row_indexed].
    rewrite (proj1 (set_position_facts child _)).
    rewrite bool_decide_eq_true_2 by reflexivity. apply (IH (a + 1) b). lia.
Qed.

Lemma init_grid_indexed n : forall a b,
  Z.to_nat (b - a) = n -> grid_indexed a (init_grid child cols (py_range a b)) = true.
Proof.
  induction n as [|n IH]; intros a b Hn.
  - rewrite py_range_nil by lia. reflexivity.
  - rewrite py_range_cons by lia. cbn [init_grid map grid_indexed].
    rewrite (init_row_indexed a _ 0 cols eq_refl). apply (IH (a + 1) b). lia.
Qed.

Lemma init_grid_children (f : Placeable -> bool) ixs :
  (forall pos, f (set_position child pos) = true) ->
  forallb (forallb f) (init_grid child cols ixs) = true.
Proof.
  intros Hf. apply forallb_forall. intros row Hrow.
  apply in_map_iff in Hrow as (i & <- & _).
  apply forallb_forall. intros c Hc. apply in_map_iff in Hc as (j & <- & _). apply Hf.
Qed.

Lemma init_grid_dims :
  dims_ok rows cols (init_grid child cols (py_range 0 rows)) = true.
Proof.
  apply dims_ok_spec. split.
  - unfold init_grid. rewrite length_map, py_range_length; lia.
  - apply List.Forall_forall. intros row Hrow.
    apply in_map_iff in Hrow as (i & <- & _).
    unfold init_row. rewrite length_map, py_range_length; lia.
Qed.

(** [Board.__init__] builds a well-formed Board around well-formed children. *)
Lemma Board_init_well_formed :
  well_formed child = true ->
  well_formed (Board_init (rows, cols) child k) = true.
Proof.
  intros Hch. rewrite Board_init_unfold. apply well_formed_board.
  split; [apply init_grid_dims|]. split.
  - apply (init_grid_indexed _ 0 rows eq_refl).
  - apply init_grid_children. intros pos.
    rewrite (proj1 (proj2 (proj2 (set_position_facts child pos)))). exact Hch.
Qed.
End BoardInit.

Lemma cell_at_In {A} (cells : list (list A)) x y c :
  cell_at cells x y = Some c -> In c (concat cells).
Proof.
  intros Hat. apply cell_at_resolve in Hat as (i & j & row & R & Hj).
  apply resolve_row in R as (_ & Hrow & _).
  apply in_concat. exists row. split; apply list_elem_of_In.
  - eapply list_elem_of_lookup_2; eauto.
  - eapply list_elem_of_lookup_2; eauto.
Qed.

Lemma ray_cells_from_grid rows cols cells x0 y0 dx dy idx ray :
  ray_cells rows cols cells x0 y0 dx dy idx = Ok ray ->
  Forall (fun c => In c (concat cells)) ray.
Proof.
  revert ray. induction idx as [|i idx IH]; intros ray H; cbn [ray_cells] in H.
  - injection H as <-. constructor.
  - destruct (_is_in_board rows cols (x0 + i * dx) (y0 + i * dy)); [|auto].
    destruct (cell_at cells (x0 + i * dx) (y0 + i * dy)) as [c|] eqn:Hat;
      [|discriminate].
    destruct (ray_cells rows cols cells x0 y0 dx dy idx) as [rest|]; [|discriminate].
    injection H as <-. constructor; [eapply cell_at_In; eauto|auto].
Qed.

Lemma scan_ray_all_empty k ray count prev :
  k <> 0 -> Forall (fun c => symbol c = GameSymbol.empty) ray ->
  scan_ray k ray count prev = None.
Proof.
  intros Hk H. revert count prev.
  induction H as [|c ray Hc _ IH]; intros count prev; [reflexivity|].
  cbn [scan_ray]. rewrite Hc. change (is_empty GameSymbol.empty) with true.
  cbn [negb andb]. destruct (0 =? k) eqn:E; [lia|]. apply IH.
Qed.

Section FreshGrid.
Variables (rows cols : Z) (cells : list (list Placeable)) (k : Z).
Hypothesis Hdims : dims_ok rows cols cells = true.
Hypothesis Hempty : Forall (fun c => symbol c = GameSymbol.empty) (concat cells).

Lemma check_directions_all_empty x0 y0 ds :
  check_directions rows cols cells k x0 y0 None ds = Ok GameSymbol.empty.
Proof.
  induction ds as [|[dx dy] ds IH]; cbn [check_directions]; [reflexivity|].
  unfold _dxdy_ray.
  destruct (ray_cells_total rows cols cells Hdims x0 y0 dx dy (py_range (- k) k))
    as [ray Hray].
  rewrite Hray. cbn [bind].
  assert (Hscan : scan_ray k ray 0 GameSymbol.empty = None).
  { destruct (Z.eq_dec k 0) as [->|Hk].
    - cbn in Hray. injection Hray as <-. reflexivity.
    - apply scan_ray_all_empty; [exact Hk|].
      apply ray_cells_from_grid in Hray.
      rewrite List.Forall_forall in Hray, Hempty |- *. auto. }
  rewrite Hscan. exact IH.
Qed.

Lemma winner_cells_all_empty cs res :
  Forall (fun c => position c <> None) cs ->
  res = GameSymbol.empty -> empty_cells cells <> 0 ->
  winner_cells rows cols cells k cs res = Ok GameSymbol.empty.
Proof.
  intros Hpos -> Hne. induction Hpos as [|c cs Hc _ IH]; cbn [winner_cells].
  - apply Z.eqb_neq in Hne. rewrite Hne. reflexivity.
  - unfold _check_winner_from_pos.
    destruct (position c) as [[x0 y0]|]; [|contradiction]. cbn [coords bind].
    rewrite check_directions_all_empty. cbn [bind]. exact IH.
Qed.

(** A grid with at least one child, all children undecided, has no winner
    and is not drawn. *)
Lemma winner_all_empty :
  Forall (fun c => position c <> None) (concat cells) ->
  concat cells <> [] ->
  winner rows cols cells k = Ok GameSymbol.empty.
Proof.
  intros Hpos Hne. apply winner_cells_all_empty; auto.
  unfold empty_cells. destruct (concat cells) as [|c l]; [contradiction|].
  cbn [List.filter]. inversion Hempty as [|? ? Hc _]; subst.
  rewrite Hc. change (is_empty GameSymbol.empty) with true. cbn [length]. lia.
Qed.
End FreshGrid.

(** [Board.__init__] leaves the symbol that the derivation gives, when there
    is at least one slot and the children start undecided. *)
Lemma Board_init_symbol_cached rows cols child k :
  1 <= rows -> 1 <= cols ->
  symbol child = GameSymbol.empty -> symbol_cached child = true ->
  symbol_cached (Board_init (rows, cols) child k) = true.
Proof.
  intros Hr Hc Hs Hch. rewrite (Board_init_unfold rows cols child k).
  apply symbol_cached_board. split.
  - apply winner_all_empty.
    + apply init_grid_dims.
    + apply List.Forall_forall. intros c Hin.
      apply in_concat in Hin as (row & Hrow & Hin).
      apply in_map_iff in Hrow as (i & <- & _).
      apply in_map_iff in Hin as (j & <- & _).
      rewrite (proj1 (proj2 (set_position_facts child _))). exact Hs.
    + apply (grid_indexed_positioned 0). apply (init_grid_indexed _ _ _ 0 rows eq_refl).
    + rewrite (py_range_cons 0 rows) by lia. cbn [init_grid map concat].
      rewrite (py_range_cons 0 cols) by lia. discriminate.
  - apply init_grid_children. intros pos.
    rewrite (proj2 (proj2 (proj2 (set_position_facts child pos)))). exact Hch.
Qed.

Lemma wrap_layers_well_formed outer : forall inner,
  well_formed inner = true ->
  well_formed (fold_left (fun inner '(dims, streak) => Board_init dims inner streak)
                         outer inner) = true.
Proof.
  induction outer as [|[[r c] k] outer IH]; intros inner Hwf; [exact Hwf|].
  cbn [fold_left]. apply IH. apply Board_init_well_formed. exact Hwf.
Qed.

Lemma wrap_layers_symbol_cached outer : forall inner,
  Forall (fun l => 1 <= fst (fst l) /\ 1 <= snd (fst l)) outer ->
  symbol inner = GameSymbol.empty -> symbol_cached inner = true ->
  symbol (fold_left (fun inner '(dims, streak) => Board_init dims inner streak)
                    outer inner) = GameSymbol.empty /\
  symbol_cached (fold_left (fun inner '(dims, streak) => Board_init dims inner streak)
                           outer inner) = true.
Proof.
  induction outer as [|[[r c] k] outer IH]; intros inner Hall Hs Hc; [auto|].
  cbn [fold_left]. inversion Hall as [|? ? [Hr Hcc] Hall']; subst.
  cbn [fst snd] in Hr, Hcc.
  apply IH; [exact Hall'|reflexivity|].
  apply Board_init_symbol_cached; assumption.
Qed.

(** [Board.layers_init] builds well-formed trees; when every layer has at
    least one row and one column, every Board of the tree starts with the
    symbol that its derivation gives. *)
Lemma layers_init_invariants layers b :
  layers_init layers = Ok b ->
  well_formed b = true /\
  (Forall (fun l => 1 <= fst (fst l) /\ 1 <= snd (fst l)) layers ->
   symbol b = GameSymbol.empty /\ symbol_cached b = true).
Proof.
  destruct layers as [|[[r0 c0] k0] outer]; [discriminate|].
  cbn [layers_init]. intros [= <-]. split.
  - apply wrap_layers_well_formed, Board_init_well_formed. reflexivity.
  - intros Hall. inversion Hall as [|? ? [Hr Hc] Hall']; subst.
    cbn [fst snd] in Hr, Hc.
    apply wrap_layers_symbol_cached; [exact Hall'|reflexivity|].
    apply Board_init_symbol_cached; auto.
Qed.

(** ** Board: the calls on the children *)

Lemma raise_invalid_move_raises {A} m : exists e, raise_invalid_move (A:=A) m = Raise e.
Proof. unfold raise_invalid_move. destruct (Move.str m); cbn [bind]; eauto. Qed.


(** No call of [Board.make_move] returns, and none changes the Board. *)
Lemma Board_make_move_raises pos rows cols cells gm s k m :
  exists e, make_move (Board pos rows cols cells gm s k) m
            = (Board pos rows cols cells gm s k, Raise e).
Proof.
  unfold make_move.
  destruct (let* mp := Move.position m in coords mp) as [[x y]|e]; [|eauto].
  destruct (raise_invalid_move_raises (A:=bool) m) as [e He]. rewrite He.
  destruct (_is_in_board rows cols x y); [|eauto].
  destruct (cell_with symbol cells x y) as [cs|]; [|eauto].
  destruct (is_empty cs); [|eauto].
  unfold makeMove.
  destruct (cell_with_no_such_method_cases
              (M:=Move.t -> Placeable * result bool) cells x y) as [-> | ->]; eauto.
Qed.


(** No call of [Board.undo_move] returns, and none changes the Board. *)
Lemma Board_undo_move_raises pos rows cols cells gm s k m :
  exists e, undo_move (Board pos rows cols cells gm s k) m
            = (Board pos rows cols cells gm s k, Raise e).
Proof.
  unfold undo_move. destruct (py_last gm) as [last_move|e]; [|eauto].
  destruct (Move.eqb last_move m).
  - destruct (let* mp := Move.position m in coords mp) as [[x y]|e]; [|eauto].
    unfold undoMove.
    destruct (cell_with_no_such_method_cases
                (M:=Move.t -> Placeable * result (option bool)) cells x y)
      as [-> | ->]; eauto.
  - unfold raise_undo_mismatch.
    destruct (Move.str m); cbn [bind]; [|eauto].
    destruct (Move.str last_move); cbn [bind]; eauto.
Qed.

(** C1: [Board.make_move] does not get to apply a move.  For a move whose
    position is inside the grid and whose target child is undecided, the
    lookup of [makeMove] on that child raises [AttributeError] before the
    sub-move is built: nothing is applied, the symbol is not recomputed, the
    move is not appended to the history, and no success is reported. *)
Theorem make_move_stops_at_child_call pos rows cols cells gm s winStreak m x y c :
  Move.position m = Ok (Some (x, y)) ->
  _is_in_board rows cols x y = true ->
  cell_at cells x y = Some c ->
  symbol c = GameSymbol.empty ->
  make_move (Board pos rows cols cells gm s winStreak) m
  = (Board pos rows cols cells gm s winStreak, Raise AttributeError).
Proof.
  intros Hpos Hin Hat Hs. unfold make_move. rewrite Hpos. cbn [bind coords].
  rewrite Hin, cell_with_cell_at, Hat. cbn [option_map].
  apply is_empty_true in Hs. rewrite Hs.
  rewrite cell_with_cell_at, Hat. cbn [option_map].
  destruct c; reflexivity.
Qed.

Lemma make_move_stops_at_child_call_witness :
  make_move (Board_init (3, 3) Cell_init 3) (Move.mk (Some [Some (1, 1)]) GameSymbol.X)
  = (Board_init (3, 3) Cell_init 3, Raise AttributeError).
Proof.
  apply (make_move_stops_at_child_call None 3 3 _ [] GameSymbol.empty 3
           (Move.mk (Some [Some (1, 1)]) GameSymbol.X) 1 1
           (Cell (Some (1, 1)) GameSymbol.empty)); reflexivity.
Defined.



(** ** Board: legal moves and the active region *)







(** * Further properties of the engine *)

(** ** Win detection *)

(** X1: [winner] reports no mark without a line: a symbol it returns, other
    than "empty", fills [winStreak] consecutive slots of a row, a column or a
    diagonal of the grid, or it is the draw marker of a grid with no empty
    slot. *)
Theorem winner_reports_only_lines rows cols cells winStreak w :
  winner rows cols cells winStreak = Ok w ->
  w <> GameSymbol.empty ->
  has_line rows cols cells winStreak w = true \/
  (w = GameSymbol.full /\ empty_cells cells = 0).
Proof. intros Hw Hne. eapply winner_sound; eauto. Qed.

Lemma winner_reports_only_lines_witness :
  has_line 1 3
    [[Cell (Some (0, 0)) GameSymbol.X; Cell (Some (0, 1)) GameSymbol.X;
      Cell (Some (0, 2)) GameSymbol.empty]] 2 GameSymbol.X = true \/
  (GameSymbol.X = GameSymbol.full /\
   empty_cells [[Cell (Some (0, 0)) GameSymbol.X; Cell (Some (0, 1)) GameSymbol.X;
                 Cell (Some (0, 2)) GameSymbol.empty]] = 0).
Proof.
  apply (winner_reports_only_lines 1 3 _ 2 GameSymbol.X); [reflexivity|discriminate].
Defined.

(** X2: on a grid of the declared dimensions whose children carry their
    index as position, [winner] raises nothing: no index leaves the grid and no
    position is missing. *)
Theorem winner_never_raises rows cols cells winStreak :
  dims_ok rows cols cells = true ->
  grid_indexed 0 cells = true ->
  exists w, winner rows cols cells winStreak = Ok w.
Proof.
  intros Hd Hi. apply winner_total; [exact Hd|].
  eapply grid_indexed_positioned; eauto.
Qed.

Lemma winner_never_raises_witness :
  exists w, winner 2 2
              [[Cell (Some (0, 0)) GameSymbol.X; Cell (Some (0, 1)) GameSymbol.O];
               [Cell (Some (1, 0)) GameSymbol.empty; Cell (Some (1, 1)) GameSymbol.X]] 2
            = Ok w.
Proof. apply winner_never_raises; reflexivity. Defined.

Lemma winner_cells_no_streak rows cols cells k cs res :
  k <= 0 -> Forall (fun c => position c <> None) cs -> res = GameSymbol.empty ->
  winner_cells rows cols cells k cs res
  = Ok (if empty_cells cells =? 0 then GameSymbol.full else GameSymbol.empty).
Proof.
  intros Hk Hpos ->. induction Hpos as [|c cs Hc _ IH]; cbn [winner_cells].
  - destruct (empty_cells cells =? 0); reflexivity.
  - unfold _check_winner_from_pos.
    destruct (position c) as [[x0 y0]|]; [|contradiction]. cbn [coords bind].
    unfold ray_directions. cbn [check_directions]. unfold _dxdy_ray.
    rewrite py_range_nil by lia. cbn. exact IH.
Qed.

(** X3: with [winStreak <= 0] the scan window [range(-winStreak, winStreak)]
    is empty, so no line is ever reported: [winner] is the draw marker when no
    slot is empty and "empty" otherwise, whatever marks the grid holds. *)
Theorem winner_without_streak rows cols cells winStreak :
  winStreak <= 0 ->
  Forall (fun c => position c <> None) (concat cells) ->
  winner rows cols cells winStreak
  = Ok (if empty_cells cells =? 0 then GameSymbol.full else GameSymbol.empty).
Proof. intros Hk Hpos. apply winner_cells_no_streak; auto. Qed.

Lemma winner_without_streak_witness :
  winner 1 3
    [[Cell (Some (0, 0)) GameSymbol.X; Cell (Some (0, 1)) GameSymbol.X;
      Cell (Some (0, 2)) GameSymbol.empty]] 0
  = Ok GameSymbol.empty.
Proof.
  refine (winner_without_streak 1 3
            [[Cell (Some (0, 0)) GameSymbol.X; Cell (Some (0, 1)) GameSymbol.X;
              Cell (Some (0, 2)) GameSymbol.empty]] 0 _ _); [lia|].
  repeat constructor; discriminate.
Defined.

Lemma ray_cells_length rows cols cells x0 y0 dx dy idx ray :
  ray_cells rows cols cells x0 y0 dx dy idx = Ok ray ->
  (length ray <= length idx)%nat.
Proof.
  revert ray. induction idx as [|i idx IH]; intros ray H; cbn [ray_cells] in H.
  - injection H as <-. reflexivity.
  - destruct (_is_in_board rows cols (x0 + i * dx) (y0 + i * dy)).
    + destruct (cell_at cells (x0 + i * dx) (y0 + i * dy)); [|discriminate].
      destruct (ray_cells rows cols cells x0 y0 dx dy idx) as [rest|]; [|discriminate].
      injection H as <-. cbn [length]. specialize (IH rest eq_refl). lia.
    + specialize (IH ray H). cbn [length]. lia.
Qed.

(** X4: a ray of [_dxdy_ray] holds at most [2 * streak] nodes, all of them
    children of the grid, and on a grid of the declared dimensions the method
    raises nothing. *)
Theorem dxdy_ray_bounded rows cols cells winStreak x0 y0 dx dy streak :
  (forall ray, _dxdy_ray rows cols cells winStreak x0 y0 dx dy streak = Ok ray ->
     Z.of_nat (length ray)
     <= Z.max 0 (2 * match streak with Some s => s | None => winStreak end) /\
     Forall (fun c => In c (concat cells)) ray) /\
  (dims_ok rows cols cells = true ->
   exists ray, _dxdy_ray rows cols cells winStreak x0 y0 dx dy streak = Ok ray).
Proof.
  unfold _dxdy_ray. split.
  - intros ray Hray. split.
    + apply ray_cells_length in Hray.
      pose proof (py_range_length
                    (- match streak with Some s => s | None => winStreak end)
                    (match streak with Some s => s | None => winStreak end)).
      lia.
    + eapply ray_cells_from_grid; eauto.
  - intros Hd. apply ray_cells_total. exact Hd.
Qed.

Lemma dxdy_ray_bounded_witness :
  exists ray,
    _dxdy_ray 1 3
      [[Cell (Some (0, 0)) GameSymbol.X; Cell (Some (0, 1)) GameSymbol.X;
        Cell (Some (0, 2)) GameSymbol.empty]] 3 0 1 0 1 None = Ok ray.
Proof.
  apply (proj2 (dxdy_ray_bounded 1 3 _ 3 0 1 0 1 None)). reflexivity.
Defined.

(** ** Construction *)

(** X5: [Board.layers_init] raises [IndexError] on an empty layer list; on
    any other list it builds a well-formed tree, and when every layer has at
    least one row and one column the tree is undecided and every Board in it
    carries the symbol that its own derivation gives. *)
Theorem layers_init_builds layers :
  (layers = [] -> layers_init layers = Raise IndexError) /\
  (layers <> [] ->
   exists b, layers_init layers = Ok b /\ well_formed b = true /\
     (Forall (fun l => 1 <= fst (fst l) /\ 1 <= snd (fst l)) layers ->
      symbol b = GameSymbol.empty /\ symbol_cached b = true)).
Proof.
  split; [intros ->; reflexivity|]. intros Hne.
  destruct (layers_init layers) as [b|e] eqn:Hb.
  - exists b. split; [reflexivity|]. apply layers_init_invariants. exact Hb.
  - destruct layers as [|[[r c] k] outer]; [contradiction|discriminate].
Qed.

Lemma layers_init_builds_witness :
  exists b, layers_init [((3, 3), 3); ((3, 3), 3)] = Ok b /\ well_formed b = true /\
    (Forall (fun l => 1 <= fst (fst l) /\ 1 <= snd (fst l)) [((3, 3), 3); ((3, 3), 3)] ->
     symbol b = GameSymbol.empty /\ symbol_cached b = true).
Proof. apply (proj2 (layers_init_builds [((3, 3), 3); ((3, 3), 3)])). discriminate. Defined.

(** ** Applying and undoing moves *)

(** X6: no call of [Board.make_move] or of [Board.undo_move] returns, and
    none changes the Board: whatever the Board and the move, the call raises,
    and cells, symbol and history are as before. *)
Theorem Board_moves_always_raise pos rows cols cells gm s winStreak m :
  (exists e, make_move (Board pos rows cols cells gm s winStreak) m
             = (Board pos rows cols cells gm s winStreak, Raise e)) /\
  (exists e, undo_move (Board pos rows cols cells gm s winStreak) m
             = (Board pos rows cols cells gm s winStreak, Raise e)).
Proof. split; [apply Board_make_move_raises|apply Board_undo_move_raises]. Qed.

(** X12: only the last move can be undone: with a non-empty history whose
    last move differs from the given one in path or symbol, [Board.undo_move]
    raises and the Board is as before.  The exception is the mismatch
    exception when both moves have a path; a move without a path makes the
    formatting of the message raise [TypeError] instead. *)
Theorem undo_move_mismatch pos rows cols cells gm s winStreak m last_move :
  py_last gm = Ok last_move ->
  (Move.positions last_move <> Move.positions m \/
   Move.symbol last_move <> Move.symbol m) ->
  undo_move (Board pos rows cols cells gm s winStreak) m
  = (Board pos rows cols cells gm s winStreak,
     match Move.positions m, Move.positions last_move with
     | Some _, Some _ => Raise UndoMismatch
     | _, _ => Raise TypeError
     end).
Proof.
  intros Hlast Hne. cbn [undo_move]. rewrite Hlast.
  assert (E : Move.eqb last_move m = false).
  { unfold Move.eqb. apply andb_false_iff.
    destruct Hne as [H|H]; [left|right]; apply bool_decide_eq_false; congruence. }
  rewrite E. unfold raise_undo_mismatch, Move.str.
  destruct (Move.positions m), (Move.positions last_move); reflexivity.
Qed.

Lemma undo_move_mismatch_witness :
  undo_move (Board None 1 2
               [[Cell (Some (0, 0)) GameSymbol.X; Cell (Some (0, 1)) GameSymbol.empty]]
               [Move.mk (Some [Some (0, 0)]) GameSymbol.X] GameSymbol.empty 2)
            (Move.mk (Some [Some (0, 1)]) GameSymbol.X)
  = (Board None 1 2
       [[Cell (Some (0, 0)) GameSymbol.X; Cell (Some (0, 1)) GameSymbol.empty]]
       [Move.mk (Some [Some (0, 0)]) GameSymbol.X] GameSymbol.empty 2,
     Raise UndoMismatch).
Proof.
  apply (undo_move_mismatch None 1 2 _ _ GameSymbol.empty 2
           (Move.mk (Some [Some (0, 1)]) GameSymbol.X)
           (Move.mk (Some [Some (0, 0)]) GameSymbol.X)); [reflexivity|].
  left. discriminate.
Defined.

(** ** Moves *)

(** X14: [super_move] and [sub_move] are inverse to each other on moves that
    keep a path: prepending one position and removing it again gives back a
    move with a non-empty path, and removing the first position of a path of
    two or more and prepending it again gives back the move.  A path of one
    position is the exception: [sub_move] leaves a move without a path, on
    which [super_move] raises [TypeError]. *)
Theorem sub_move_super_move p q ps s :
  (exists m', Move.super_move [p] (Move.mk (Some (q :: ps)) s) = Ok m' /\
              Move.sub_move m' = Ok (Move.mk (Some (q :: ps)) s)) /\
  (exists m', Move.sub_move (Move.mk (Some (p :: q :: ps)) s) = Ok m' /\
              Move.position m' = Ok q /\
              Move.super_move [p] m' = Ok (Move.mk (Some (p :: q :: ps)) s)) /\
  (exists m', Move.sub_move (Move.mk (Some [p]) s) = Ok m' /\
              Move.positions m' = None /\
              Move.position m' = Raise AttributeError /\
              Move.super_move [p] m' = Raise TypeError).
Proof.
  split; [|split]; eexists; repeat split; reflexivity.
Qed.

(** ** Sub-node lookup *)

(** On a grid of the declared dimensions, an index outside the range of the
    grid, counted from either end, finds no slot. *)
Lemma cell_with_out_of_range {B} (f : Placeable -> B) rows cols cells x y :
  dims_ok rows cols cells = true ->
  ~ (- rows <= x < rows /\ - cols <= y < cols) ->
  cell_with f cells x y = None.
Proof.
  intros Hd Hout. apply dims_ok_spec in Hd as [Hr Hc].
  rewrite cell_with_resolve. unfold resolve.
  destruct (py_index (length cells) x) as [i|] eqn:Hi; [|reflexivity].
  destruct (cells !! i) as [row|] eqn:Hrow; [|reflexivity].
  destruct (py_index (length row) y) as [j|] eqn:Hj; [|reflexivity].
  exfalso. apply Hout.
  rewrite Forall_lookup in Hc. specialize (Hc _ _ Hrow).
  unfold py_index in Hi, Hj.
  destruct ((0 <=? x) && (x <? Z.of_nat (length cells))) eqn:E1;
    destruct ((0 <=? y) && (y <? Z.of_nat (length row))) eqn:E2;
    repeat match goal with
           | H : (if ?b then _ else _) = Some _ |- _ =>
               destruct b eqn:?; [|discriminate]
           end;
    repeat match goal with
           | H : _ && _ = true |- _ => apply andb_prop in H as [? ?]
           end; lia.
Qed.

(** X15: [Board.sub_board] reaches no child.  The empty path gives the Board
    itself; every non-empty path raises: [AttributeError], from the lookup of
    [subBoard], when the first position addresses a child, and [IndexError]
    when, on a grid of the declared dimensions, the first position is outside
    the index range of the grid, counted from either end. *)
Theorem sub_board_reaches_no_child pos rows cols cells gm s winStreak :
  sub_board (Board pos rows cols cells gm s winStreak) []
  = Ok (Board pos rows cols cells gm s winStreak) /\
  (forall a tl, exists e,
     sub_board (Board pos rows cols cells gm s winStreak) (a :: tl) = Raise e) /\
  (forall x y tl c, cell_at cells x y = Some c ->
     sub_board (Board pos rows cols cells gm s winStreak) (Some (x, y) :: tl)
     = Raise AttributeError) /\
  (forall x y tl, dims_ok rows cols cells = true ->
     ~ (- rows <= x < rows /\ - cols <= y < cols) ->
     sub_board (Board pos rows cols cells gm s winStreak) (Some (x, y) :: tl)
     = Raise IndexError).
Proof.
  split; [reflexivity|split; [|split]].
  - intros [[x y]|] tl; cbn [sub_board coords bind]; [|eauto].
    unfold subBoard.
    destruct (cell_with_no_such_method_cases
                (M:=list Position -> result Placeable) cells x y) as [-> | ->];
      cbn [bind]; eauto.
  - intros x y tl c Hat. cbn [sub_board coords bind]. unfold subBoard.
    rewrite (cell_with_no_such_method _ _ _ _ Hat). reflexivity.
  - intros x y tl Hd Hout. cbn [sub_board coords bind].
    rewrite (cell_with_out_of_range _ _ _ _ _ _ Hd Hout). reflexivity.
Qed.

Lemma sub_board_reaches_no_child_witness :
  sub_board (Board_init (1, 2) (Board_init (1, 2) Cell_init 2) 2)
            [Some (0, 1); Some (0, 0)]
  = Raise AttributeError.
Proof.
  apply (proj1 (proj2 (proj2
           (sub_board_reaches_no_child None 1 2
              (init_grid (Board_init (1, 2) Cell_init 2) 2 (py_range 0 1))
              [] GameSymbol.empty 2)))
           0 1 [Some (0, 0)]
           (Board (Some (0, 1)) 1 2 (init_grid Cell_init 2 (py_range 0 1))
                  [] GameSymbol.empty 2)).
  reflexivity.
Defined.

(** ** Availability and the active path *)

(** X17: [get_active] confines nothing: when it returns, the active path is
    empty, and the history is empty, or the Board is decided, or the path of
    the last move has at most one position.  (After a longer move on an
    undecided Board the availability check raises.) *)
Theorem get_active_returns_empty_path pos rows cols cells gm s winStreak active :
  get_active (Board pos rows cols cells gm s winStreak) = Ok active ->
  active = [] /\
  (gm = [] \/ s <> GameSymbol.empty \/
   exists m ps, py_last gm = Ok m /\ Move.positions m = Some ps /\
                (length ps <= 1)%nat).
Proof.
  unfold get_active. destruct gm as [|m0 gm']; [intros [= <-]; auto|].
  change (length (m0 :: gm') =? 0)%nat with false. cbv iota.
  destruct (py_last (m0 :: gm')) as [m|] eqn:Hlast; [|discriminate].
  cbn [bind]. destruct (Move.positions m) as [ps|] eqn:Hps; [|discriminate].
  destruct (skipn 1 ps) as [|a tl] eqn:Hsk.
  - cbn [_check_active_availability bind forallb]. intros H. split.
    + destruct (is_empty s); cbn in H; injection H as <-; reflexivity.
    + right. right. exists m, ps. split; [reflexivity|]. split; [exact Hps|].
      destruct ps as [|p [|p' ps]]; cbn; [lia|lia|discriminate].
  - cbn [_check_active_availability]. destruct (is_empty s) eqn:Hs.
    + destruct a as [[x y]|]; cbn [coords bind]; [|discriminate].
      unfold _checkActiveAvailability.
      destruct (cell_with_no_such_method_cases
                  (M:=list Position -> result (list bool)) (cells) x y) as [-> | ->];
        cbn [bind]; discriminate.
    + cbn. intros [= <-]. split; [reflexivity|].
      right. left. apply is_empty_false. exact Hs.
Qed.

Lemma get_active_returns_empty_path_witness :
  @nil Position = [] /\
  ([Move.mk (Some [Some (0, 0)]) GameSymbol.X] = [] \/
   GameSymbol.empty <> GameSymbol.empty \/
   exists m ps, py_last [Move.mk (Some [Some (0, 0)]) GameSymbol.X] = Ok m /\
                Move.positions m = Some ps /\ (length ps <= 1)%nat).
Proof.
  apply (get_active_returns_empty_path None 1 2
           [[Cell (Some (0, 0)) GameSymbol.X; Cell (Some (0, 1)) GameSymbol.empty]]
           [Move.mk (Some [Some (0, 0)]) GameSymbol.X] GameSymbol.empty 2 []).
  reflexivity.
Defined.

(** X18: the availability check does no bounds check of its own: on an
    undecided Board with a grid of the declared dimensions, a first position
    outside the index range of the grid, counted from either end, raises
    [IndexError]. *)
Theorem availability_out_of_range pos rows cols cells gm winStreak x y tl :
  dims_ok rows cols cells = true ->
  ~ (- rows <= x < rows /\ - cols <= y < cols) ->
  _check_active_availability (Board pos rows cols cells gm GameSymbol.empty winStreak)
                             (Some (x, y) :: tl)
  = Raise IndexError.
Proof.
  intros Hd Hout. cbn [_check_active_availability].
  change (is_empty GameSymbol.empty) with true. cbn [bind coords].
  rewrite (cell_with_out_of_range _ _ _ _ _ _ Hd Hout). reflexivity.
Qed.

Lemma availability_out_of_range_witness :
  _check_active_availability
    (Board None 1 2 [[Cell (Some (0, 0)) GameSymbol.empty; Cell (Some (0, 1)) GameSymbol.X]]
           [] GameSymbol.empty 2)
    [Some (0, 2)]
  = Raise IndexError.
Proof. apply availability_out_of_range; [reflexivity|lia]. Defined.
